(** * The Magbead instrument (opentrons/instruments/magbead.py)

    A shallow embedding of the [Magbead] class and of the command-deferral
    protocol it drives, followed by the properties of its construction and of
    its three actions [engage], [disengage] and [delay].

    Python objects are mutable and the closures [_setup] and [_do] capture
    [self] by reference, so instruments live in a heap addressed by object
    identities, and every method is a computation over the whole world
    (heap, robot, motor trace) that may fail, as a raised exception does. *)

From Stdlib Require Import ZArith String Ascii DecimalString DecimalPos DecimalZ.
From stdpp Require Import gmap strings list fin_maps.

Open Scope Z_scope.
Open Scope string_scope.
Open Scope list_scope.

(** ** Python values and their text rendering *)

(** Values that reach [delay] as [seconds].  The module never computes with
    a float, it only stores it and formats it: a float is carried by its
    [repr], which determines it. *)
Inductive pyval :=
| PyNone
| PyBool (b : bool)
| PyInt (z : Z)
| PyFloat (repr : string)
| PyStr (s : string).

(** ['{}'.format(i)] for an integer [i]: decimal digits, ["-"] in front of a
    negative number. *)
Definition format_int (i : Z) : string :=
  NilZero.string_of_int (Z.to_int i).

(** ['{}'.format(v)] *)
Definition format (v : pyval) : string :=
  match v with
  | PyNone => "None"
  | PyBool true => "True"
  | PyBool false => "False"
  | PyInt z => format_int z
  | PyFloat repr => repr
  | PyStr s => s
  end.

(** Truth value of the [name] argument, which is [None] or a string:
    [not name] holds for [None] and for the empty string. *)
Definition py_not (name : option string) : bool :=
  match name with
  | None => true
  | Some "" => true
  | Some _ => false
  end.

(** ** Data model *)

(** Identity of a Python object. *)
Definition ObjId := nat.

(** A placeable set on top of the module, by reference. *)
Definition Placeable := ObjId.

(** One entry of persisted calibration data. *)
Definition Entry := string.

(** The handle [robot.get_mosfet] returns.  Its class is not part of this
    module; [motor_str] is the text Python's formatting gives for it. *)
Record MotorHandle := {
  mosfet_index : Z;
  motor_str : string
}.

(** What a motor handle can be asked to do. *)
Inductive MotorCall :=
| motor_engage
| motor_disengage
| motor_wait (seconds : pyval).

(** The attributes [__init__] sets on a [Magbead]. *)
Record Magbead := {
  axis : string;
  motor : MotorHandle;
  name : string;
  persisted_data : list Entry;
  calibration_key : string;
  container : option Placeable;
  engaged : bool
}.

(** The nested functions of the three actions, each with what it closes
    over. *)
Inductive Closure :=
| engage__setup (self : ObjId)
| engage__do (self : ObjId)
| disengage__setup (self : ObjId)
| disengage__do (self : ObjId)
| delay__setup
| delay__do (self : ObjId) (seconds : pyval).

(** The keyword arguments [do], [setup] and [description] handed to
    [create_command]: a command descriptor. *)
Record Command := {
  do : Closure;
  setup : Closure;
  description : string
}.

(** The world a method runs in: the heap of instruments, the robot singleton
    (instrument registry, resolvable mosfets, command queue), the calibration
    store, and the trace of invocations the motor handles received. *)
Record World := {
  heap : gmap ObjId Magbead;
  instruments : gmap string ObjId;
  mosfets : gmap Z MotorHandle;
  commands : list Command;
  calibrations : gmap string (list Entry);
  motor_log : list (MotorHandle * MotorCall)
}.

Definition set_heap (h : gmap ObjId Magbead) (w : World) : World :=
  {| heap := h; instruments := instruments w; mosfets := mosfets w;
     commands := commands w; calibrations := calibrations w;
     motor_log := motor_log w |}.

Definition set_instruments (r : gmap string ObjId) (w : World) : World :=
  {| heap := heap w; instruments := r; mosfets := mosfets w;
     commands := commands w; calibrations := calibrations w;
     motor_log := motor_log w |}.

Definition set_commands (q : list Command) (w : World) : World :=
  {| heap := heap w; instruments := instruments w; mosfets := mosfets w;
     commands := q; calibrations := calibrations w;
     motor_log := motor_log w |}.

Definition set_calibrations (c : gmap string (list Entry)) (w : World) : World :=
  {| heap := heap w; instruments := instruments w; mosfets := mosfets w;
     commands := commands w; calibrations := c;
     motor_log := motor_log w |}.

Definition set_motor_log (l : list (MotorHandle * MotorCall)) (w : World) : World :=
  {| heap := heap w; instruments := instruments w; mosfets := mosfets w;
     commands := commands w; calibrations := calibrations w;
     motor_log := l |}.

Definition with_engaged (b : bool) (m : Magbead) : Magbead :=
  {| axis := axis m; motor := motor m; name := name m;
     persisted_data := persisted_data m;
     calibration_key := calibration_key m; container := container m;
     engaged := b |}.

Definition with_persisted_data (d : list Entry) (m : Magbead) : Magbead :=
  {| axis := axis m; motor := motor m; name := name m;
     persisted_data := d;
     calibration_key := calibration_key m; container := container m;
     engaged := engaged m |}.

(** ** Computations: state passing with failure *)

Definition Py (A : Type) : Type := World → option (A * World).

Definition ret {A} (a : A) : Py A := λ w, Some (a, w).

Definition bind {A B} (c : Py A) (k : A → Py B) : Py B :=
  λ w, match c w with
       | Some (a, w') => k a w'
       | None => None
       end.

Notation "'let*' x ':=' c 'in' k" := (bind c (λ x, k))
  (at level 10, x name, c at level 100, k at level 200).
Notation "c ';;' k" := (bind c (λ _, k))
  (at level 100, k at level 200, right associativity).

(** Reading the attributes of [self]; an unknown identity has none. *)
Definition getattr (self : ObjId) : Py Magbead :=
  λ w, match heap w !! self with
       | Some m => Some (m, w)
       | None => None
       end.

Definition setattr (self : ObjId) (f : Magbead → Magbead) : Py unit :=
  λ w, match heap w !! self with
       | Some m => Some (tt, set_heap (<[self := f m]> (heap w)) w)
       | None => None
       end.

(** A motor handle records the invocation it receives. *)
Definition invoke (h : MotorHandle) (c : MotorCall) : Py unit :=
  λ w, Some (tt, set_motor_log (motor_log w ++ [(h, c)]) w).

(** Calling one of the nested functions.  [self.motor] is looked up when the
    function runs. *)
Definition call (f : Closure) : Py unit :=
  match f with
  | engage__setup self => setattr self (with_engaged true)
  | engage__do self => let* m := getattr self in invoke (motor m) motor_engage
  | disengage__setup self => setattr self (with_engaged false)
  | disengage__do self => let* m := getattr self in invoke (motor m) motor_disengage
  | delay__setup => ret tt
  | delay__do self seconds =>
      let* m := getattr self in invoke (motor m) (motor_wait seconds)
  end.

(** ** The platform, as this module uses it *)

(** Modelled from the spec: [Robot.add_instrument], the platform's
    [registerInstrument(axis, instrument)], is missing from the sources; it
    registers the instrument in the registry under its axis. *)
Definition add_instrument (axis : string) (self : ObjId) : Py unit :=
  λ w, Some (tt, set_instruments (<[axis := self]> (instruments w)) w).

(** Modelled from the spec: [Robot.get_mosfet], the platform's
    [resolveMotor(slotIndex)], is missing from the sources; it looks the
    motor handle of the slot up, and an unresolvable slot fails the
    construction. *)
Definition get_mosfet (mosfet : Z) : Py MotorHandle :=
  λ w, match mosfets w !! mosfet with
       | Some h => Some (h, w)
       | None => None
       end.

(** Modelled from the spec: [Instrument.init_calibrations], the platform's
    [initCalibration(key)], is missing from the sources; it bootstraps the
    persisted calibration data addressed by [key], which starts empty when
    the store has none. *)
Definition init_calibrations (self : ObjId) (key : string) : Py unit :=
  λ w, match calibrations w !! key with
       | Some _ => Some (tt, w)
       | None => Some (tt, set_calibrations (<[key := []]> (calibrations w)) w)
       end.

(** Modelled from the spec: [Instrument.load_persisted_data], the platform's
    [loadPersistedCalibration(key)], is missing from the sources; it
    populates [persisted_data] with the entries the store holds under the
    instrument's calibration key. *)
Definition load_persisted_data (self : ObjId) : Py unit :=
  let* m := getattr self in
  λ w, setattr self
         (with_persisted_data (default [] (calibrations w !! calibration_key m))) w.

(** Modelled from the spec: [Instrument.create_command], the platform's
    [submitOrRun(setup, do, description, deferred)], is missing from the
    sources; [setup] always runs at submission, then the descriptor is
    appended to the queue when [enqueue] is true and [do] runs at once when
    it is false. *)
Definition create_command (c : Command) (enqueue : bool) : Py unit :=
  call (setup c);;
  if enqueue
  then λ w, Some (tt, set_commands (commands w ++ [c]) w)
  else call (do c).

(** Replaying descriptors one after the other: [setup] then [do] of each. *)
Fixpoint replay (q : list Command) : Py unit :=
  match q with
  | [] => ret tt
  | c :: q' => call (setup c);; call (do c);; replay q'
  end.

(** Modelled from the spec: the platform's run of the queue is missing from
    the sources; draining replays [setup] then [do] of every descriptor in
    submission order, and a consumed descriptor is discarded. *)
Definition run : Py unit :=
  λ w, replay (commands w) (set_commands [] w).

(** ** The class *)

(** [self.__class__.__name__] of an instance of the class. *)
Definition __class____name__ : string := "Magbead".

Definition __init__ (self : ObjId) (name : option string) (mosfet : Z)
    (container : option Placeable) : Py unit :=
  let axis := "M" +:+ format_int mosfet in
  add_instrument axis self;;
  let* motor := get_mosfet mosfet in
  let name := if py_not name then __class____name__ else default "" name in
  let persisted_data := [] in
  let calibration_key := axis +:+ ":" +:+ name in
  let engaged := false in
  (λ w, Some (tt, set_heap (<[self :=
      {| axis := axis; motor := motor; name := name;
         persisted_data := persisted_data;
         calibration_key := calibration_key;
         container := container; engaged := engaged |}]> (heap w)) w));;
  let persisted_key := axis +:+ ":" +:+ name in
  init_calibrations self persisted_key;;
  load_persisted_data self.

(** [Magbead(name, mosfet, container)]: a new object, then [__init__]. *)
Definition new_Magbead (name : option string) (mosfet : Z)
    (container : option Placeable) : Py ObjId :=
  λ w, let self := fresh (dom (heap w)) in
       (__init__ self name mosfet container;; ret self) w.

(** The descriptor [engage] hands to [create_command]; [motor] is
    [self.motor] as read when [engage] is called. *)
Definition engage_command (self : ObjId) (motor : MotorHandle) : Command :=
  let _setup := engage__setup self in
  let _do := engage__do self in
  let _description := "Engaging Magbead at mosfet #" +:+ motor_str motor in
  {| do := _do; setup := _setup; description := _description |}.

Definition engage (self : ObjId) (enqueue : bool) : Py ObjId :=
  let* m := getattr self in
  create_command (engage_command self (motor m)) enqueue;;
  ret self.

(** The descriptor [disengage] hands to [create_command]. *)
Definition disengage_command (self : ObjId) (motor : MotorHandle) : Command :=
  let _setup := disengage__setup self in
  let _do := disengage__do self in
  let _description := "Engaging Magbead at mosfet #" +:+ motor_str motor in
  {| do := _do; setup := _setup; description := _description |}.

Definition disengage (self : ObjId) (enqueue : bool) : Py ObjId :=
  let* m := getattr self in
  create_command (disengage_command self (motor m)) enqueue;;
  ret self.

(** The descriptor [delay] hands to [create_command]. *)
Definition delay_command (self : ObjId) (seconds : pyval) : Command :=
  let _setup := delay__setup in
  let _do := delay__do self seconds in
  let _description := "Delaying Magbead for " +:+ format seconds +:+ " seconds" in
  {| do := _do; setup := _setup; description := _description |}.

Definition delay (self : ObjId) (seconds : pyval) (enqueue : bool) : Py ObjId :=
  create_command (delay_command self seconds) enqueue;;
  ret self.

(** A caller toggling the module: one [engage] or [disengage] call. *)
Inductive Toggle := Engage | Disengage.

Definition toggle (self : ObjId) (t : Toggle) (enqueue : bool) : Py ObjId :=
  match t with
  | Engage => engage self enqueue
  | Disengage => disengage self enqueue
  end.

Fixpoint toggles (self : ObjId) (ts : list Toggle) (enqueue : bool) : Py unit :=
  match ts with
  | [] => ret tt
  | t :: ts' => toggle self t enqueue;; toggles self ts' enqueue
  end.

Definition is_engage (t : Toggle) : bool :=
  match t with Engage => true | Disengage => false end.

(** ** Running the model on concrete worlds *)

Definition handle0 : MotorHandle := {| mosfet_index := 0; motor_str := "<mosfet 0>" |}.
Definition handle1 : MotorHandle := {| mosfet_index := 1; motor_str := "<mosfet 1>" |}.

(** A robot with two mosfets, no instrument, nothing queued, nothing stored. *)
Definition world0 : World :=
  {| heap := ∅; instruments := ∅;
     mosfets := <[0 := handle0]> (<[1 := handle1]> ∅);
     commands := []; calibrations := ∅; motor_log := [] |}.

(** The same robot after [Magbead(mosfet=1)]: one instrument, object 0. *)
Definition magbead1 : Magbead :=
  {| axis := "M1"; motor := handle1; name := "Magbead"; persisted_data := [];
     calibration_key := "M1:Magbead"; container := None; engaged := false |}.

Definition world1 : World :=
  {| heap := <[0%nat := magbead1]> ∅;
     instruments := <["M1" := 0%nat]> ∅;
     mosfets := <[0 := handle0]> (<[1 := handle1]> ∅);
     commands := []; calibrations := <["M1:Magbead" := []]> ∅;
     motor_log := [] |}.


(** ** Auxiliary notions of the statements *)

(** The world once the [_setup] of [engage] ([b] true) or of [disengage]
    ([b] false) has written [engaged] on the facade [self], which was [m]. *)
Definition after_setup (w : World) (self : ObjId) (m : Magbead) (b : bool) : World :=
  set_heap (<[self := with_engaged b m]> (heap w)) w.

(** [m'] is [m] up to [engaged]. *)
Definition same_identity (m m' : Magbead) : Prop :=
  axis m' = axis m ∧ motor m' = motor m ∧ name m' = name m ∧
  persisted_data m' = persisted_data m ∧
  calibration_key m' = calibration_key m ∧ container m' = container m.

(** No [":"] occurs in the string. *)
Fixpoint colon_free (s : string) : bool :=
  match s with
  | EmptyString => true
  | String a s' => negb (Ascii.eqb a ":") && colon_free s'
  end.

(** The [_setup] functions, and the [_do] functions. *)
Definition is_setup (f : Closure) : bool :=
  match f with
  | engage__setup _ | disengage__setup _ | delay__setup => true
  | engage__do _ | disengage__do _ | delay__do _ _ => false
  end.

Definition is_do (f : Closure) : bool := negb (is_setup f).

(** The facade a nested function closes over as [self]; the [_setup] of
    [delay] refers to none. *)
Definition closure_self (f : Closure) : option ObjId :=
  match f with
  | engage__setup self | engage__do self
  | disengage__setup self | disengage__do self
  | delay__do self _ => Some self
  | delay__setup => None
  end.

(** The [_setup] of the action behind a toggle. *)
Definition setup_closure (t : Toggle) (self : ObjId) : Closure :=
  match t with
  | Engage => engage__setup self
  | Disengage => disengage__setup self
  end.

(** One call of a public action of the class. *)
Inductive Action :=
| call_engage 
| call_disengage
| call_delay (seconds : pyval).

Definition perform (self : ObjId) (a : Action) (enqueue : bool) : Py ObjId :=
  match a with
  | call_engage => engage self enqueue
  | call_disengage => disengage self enqueue
  | call_delay seconds => delay self seconds enqueue
  end.

(** A chain of calls on one facade, all with the same [enqueue]. *)
Fixpoint perform_all (self : ObjId) (l : list Action) (enqueue : bool) : Py unit :=
  match l with
  | [] => ret tt
  | a :: l' => perform self a enqueue;; perform_all self l' enqueue
  end.

(** What the motor handle is asked by the [_do] of an action. *)
Definition motor_call (a : Action) : MotorCall :=
  match a with
  | call_engage => motor_engage
  | call_disengage => motor_disengage
  | call_delay seconds => motor_wait seconds
  end.

(** The descriptor an action hands to [create_command]. *)
Definition action_command (self : ObjId) (h : MotorHandle) (a : Action) : Command :=
  match a with
  | call_engage => engage_command self h
  | call_disengage => disengage_command self h
  | call_delay seconds => delay_command self seconds
  end.

(** [engaged] once the [_setup] of an action has run on a facade where it
    was [b]. *)
Definition engaged_after (a : Action) (b : bool) : bool :=
  match a with
  | call_engage => true
  | call_disengage => false
  | call_delay _ => b
  end.

(** ** The model at work *)

Example new_Magbead_world0 :
  new_Magbead None 1 None world0 = Some (0%nat, world1).
Proof. vm_compute. reflexivity. Qed.

(** ** Equations of the actions *)

Section Actions.
Variables (w : World) (self : ObjId) (m : Magbead).
Hypothesis Hself : heap w !! self = Some m.

Lemma getattr_eq : getattr self w = Some (m, w).
Proof using Hself. unfold getattr. by rewrite Hself. Qed.

Lemma setattr_eq f :
  setattr self f w = Some (tt, set_heap (<[self := f m]> (heap w)) w).
Proof using Hself. unfold setattr. by rewrite Hself. Qed.

Lemma after_setup_lookup b :
  heap (after_setup w self m b) !! self = Some (with_engaged b m).
Proof. unfold after_setup. simpl. apply lookup_insert_eq. Qed.

Lemma engage_eq enqueue :
  engage self enqueue w =
  Some (self,
        if enqueue
        then set_commands (commands w ++ [engage_command self (motor m)])
               (after_setup w self m true)
        else set_motor_log (motor_log w ++ [(motor m, motor_engage)])
               (after_setup w self m true)).
Proof using Hself.
  unfold engage, create_command, bind. rewrite getattr_eq. simpl.
  rewrite setattr_eq. destruct enqueue; simpl; [done |].
  unfold bind, getattr. fold (after_setup w self m true).
  by rewrite after_setup_lookup.
Qed.

Lemma disengage_eq enqueue :
  disengage self enqueue w =
  Some (self,
        if enqueue
        then set_commands (commands w ++ [disengage_command self (motor m)])
               (after_setup w self m false)
        else set_motor_log (motor_log w ++ [(motor m, motor_disengage)])
               (after_setup w self m false)).
Proof using Hself.
  unfold disengage, create_command, bind. rewrite getattr_eq. simpl.
  rewrite setattr_eq. destruct enqueue; simpl; [done |].
  unfold bind, getattr. fold (after_setup w self m false).
  by rewrite after_setup_lookup.
Qed.

Lemma delay_eq seconds enqueue :
  delay self seconds enqueue w =
  Some (self,
        if enqueue
        then set_commands (commands w ++ [delay_command self seconds]) w
        else set_motor_log (motor_log w ++ [(motor m, motor_wait seconds)]) w).
Proof using Hself.
  unfold delay, create_command, bind. simpl.
  destruct enqueue; simpl; [done |].
  unfold bind. by rewrite getattr_eq.
Qed.
End Actions.

(** [delay] with [enqueue] true does not even read [self]. *)
Lemma delay_enqueue_eq w self seconds :
  delay self seconds true w =
  Some (self, set_commands (commands w ++ [delay_command self seconds]) w).
Proof. reflexivity. Qed.

Lemma toggle_eq w self m t enqueue :
  heap w !! self = Some m →
  ∃ w', toggle self t enqueue w = Some (self, w') ∧
        heap w' !! self = Some (with_engaged (is_engage t) m).
Proof.
  intros H. destruct t; simpl.
  - rewrite (engage_eq w self m H). eexists; split; [done |].
    destruct enqueue; apply after_setup_lookup.
  - rewrite (disengage_eq w self m H). eexists; split; [done |].
    destruct enqueue; apply after_setup_lookup.
Qed.

Lemma toggles_total w self m ts enqueue :
  heap w !! self = Some m →
  ∃ w' m', toggles self ts enqueue w = Some (tt, w') ∧
           heap w' !! self = Some m' ∧ same_identity m m'.
Proof.
  revert w m. induction ts as [| t ts IH]; intros w m H.
  - exists w, m. by repeat split.
  - destruct (toggle_eq w self m t enqueue H) as (w1 & E1 & H1).
    destruct (IH w1 _ H1) as (w2 & m2 & E2 & H2 & S2).
    exists w2, m2. split; [| split; [done |]].
    + simpl. unfold bind. by rewrite E1.
    + destruct S2 as (? & ? & ? & ? & ? & ?). by repeat split.
Qed.

Lemma toggles_app w self ts1 ts2 enqueue :
  toggles self (ts1 ++ ts2) enqueue w =
  match toggles self ts1 enqueue w with
  | Some (_, w') => toggles self ts2 enqueue w'
  | None => None
  end.
Proof.
  revert w. induction ts1 as [| t ts1 IH]; intros w; simpl; [done |].
  unfold bind. destruct (toggle self t enqueue w) as [[? w1] |]; [apply IH | done].
Qed.

(** Replaying a queue is replaying its front, then its back. *)
Lemma replay_app q1 q2 w :
  replay (q1 ++ q2) w =
  match replay q1 w with
  | Some (_, w') => replay q2 w'
  | None => None
  end.
Proof.
  revert w. induction q1 as [| c q1 IH]; intros w; simpl; [done |].
  unfold bind. destruct (call (setup c) w) as [[? w1] |]; [| done].
  destruct (call (do c) w1) as [[? w2] |]; [| done].
  apply IH.
Qed.

(** ** The deferral protocol *)

(** C1: on every facade, [engage] with [enqueue] true returns with
    [engaged] already true, has appended exactly one descriptor to the
    queue, and has invoked no motor handle; the engage invocation happens
    when the [do] phase of that descriptor runs later. *)
Theorem engage_deferred_sets_engaged_at_call (w : World) (self : ObjId) (m : Magbead) :
  heap w !! self = Some m →
  ∃ w' c,
    engage self true w = Some (self, w') ∧
    engaged <$> heap w' !! self = Some true ∧
    commands w' = commands w ++ [c] ∧
    motor_log w' = motor_log w ∧
    call (do c) w' =
      Some (tt, set_motor_log (motor_log w ++ [(motor m, motor_engage)]) w').
Proof.
  intros H. rewrite (engage_eq w self m H).
  eexists _, (engage_command self (motor m)). split; [reflexivity |].
  repeat split.
  - simpl. by rewrite lookup_insert_eq.
  - simpl. unfold bind, getattr. simpl. by rewrite lookup_insert_eq.
Qed.

Lemma engage_deferred_sets_engaged_at_call_witness :
  heap world1 !! 0%nat = Some magbead1 ∧
  ∃ w' c,
    engage 0%nat true world1 = Some (0%nat, w') ∧
    engaged <$> heap w' !! 0%nat = Some true ∧
    commands w' = commands world1 ++ [c] ∧
    motor_log w' = motor_log world1 ∧
    call (do c) w' =
      Some (tt, set_motor_log (motor_log world1 ++ [(motor magbead1, motor_engage)]) w').
Proof.
  split; [reflexivity |].
  apply (engage_deferred_sets_engaged_at_call world1 0%nat magbead1).
  reflexivity.
Defined.

(** C4: on every facade, [engage] with [enqueue] false runs [_setup] and
    then [_do] before it returns: [engaged] is true, the motor handle has
    received exactly one more invocation, an engage, the queue is as it was,
    and the facade itself is returned. *)
Theorem engage_immediate_runs_both_phases (w : World) (self : ObjId) (m : Magbead) :
  heap w !! self = Some m →
  ∃ w1 w',
    call (engage__setup self) w = Some (tt, w1) ∧
    call (engage__do self) w1 = Some (tt, w') ∧
    engage self false w = Some (self, w') ∧
    engaged <$> heap w' !! self = Some true ∧
    motor_log w' = motor_log w ++ [(motor m, motor_engage)] ∧
    commands w' = commands w.
Proof.
  intros H. rewrite (engage_eq w self m H).
  exists (after_setup w self m true). eexists. split; [| split].
  - simpl. by rewrite (setattr_eq w self m H).
  - simpl. unfold bind, getattr. rewrite after_setup_lookup. reflexivity.
  - repeat split. simpl. by rewrite lookup_insert_eq.
Qed.

Lemma engage_immediate_runs_both_phases_witness :
  heap world1 !! 0%nat = Some magbead1 ∧
  ∃ w1 w',
    call (engage__setup 0%nat) world1 = Some (tt, w1) ∧
    call (engage__do 0%nat) w1 = Some (tt, w') ∧
    engage 0%nat false world1 = Some (0%nat, w') ∧
    engaged <$> heap w' !! 0%nat = Some true ∧
    motor_log w' = motor_log world1 ++ [(motor magbead1, motor_engage)] ∧
    commands w' = commands world1.
Proof.
  split; [reflexivity |].
  apply (engage_immediate_runs_both_phases world1 0%nat magbead1).
  reflexivity.
Defined.

(** C5: on every facade and for either value of [enqueue], [disengage]
    returns the facade itself; its [_setup] sets [engaged] to false, its
    [_do] invokes the motor handle's disengage, and the routing is that of
    [engage]: queued, one descriptor is appended and no motor handle is
    invoked; immediate, the queue is untouched and the invocation is made. *)
Theorem disengage_symmetric_to_engage (w : World) (self : ObjId) (m : Magbead)
    (enqueue : bool) :
  heap w !! self = Some m →
  ∃ w' we,
    disengage self enqueue w = Some (self, w') ∧
    engage self enqueue w = Some (self, we) ∧
    call (setup (disengage_command self (motor m))) w =
      Some (tt, after_setup w self m false) ∧
    call (do (disengage_command self (motor m))) (after_setup w self m false) =
      Some (tt, set_motor_log (motor_log w ++ [(motor m, motor_disengage)])
                  (after_setup w self m false)) ∧
    engaged <$> heap w' !! self = Some false ∧
    (if enqueue
     then commands w' = commands w ++ [disengage_command self (motor m)] ∧
          commands we = commands w ++ [engage_command self (motor m)] ∧
          motor_log w' = motor_log w ∧ motor_log we = motor_log w
     else commands w' = commands w ∧ commands we = commands w ∧
          motor_log w' = motor_log w ++ [(motor m, motor_disengage)] ∧
          motor_log we = motor_log w ++ [(motor m, motor_engage)]).
Proof.
  intros H. rewrite (disengage_eq w self m H), (engage_eq w self m H).
  eexists _, _. split; [reflexivity |]. split; [reflexivity |].
  split; [| split; [| split]].
  - simpl. by rewrite (setattr_eq w self m H).
  - simpl. unfold bind, getattr. rewrite after_setup_lookup. reflexivity.
  - destruct enqueue; simpl; by rewrite lookup_insert_eq.
  - destruct enqueue; simpl; done.
Qed.

Lemma disengage_symmetric_to_engage_witness :
  heap world1 !! 0%nat = Some magbead1 ∧
  ∃ w', disengage 0%nat true world1 = Some (0%nat, w') ∧
        engaged <$> heap w' !! 0%nat = Some false ∧
        commands w' = [disengage_command 0%nat handle1] ∧
        motor_log w' = [].
Proof.
  split; [reflexivity |].
  destruct (disengage_symmetric_to_engage world1 0%nat magbead1 true eq_refl)
    as (w' & we & Hd & _ & _ & _ & He & Hq & _ & Hl & _).
  exists w'. repeat split; assumption.
Defined.

(** C2: on one facade, after any finite sequence of immediate [engage] and
    [disengage] calls followed by one more such call, [engaged] is true
    exactly when that last call was [engage], whatever came before.  Every
    call of a sequence ends a prefix of it, so this holds after each call. *)
Theorem engaged_follows_last_immediate_call (w : World) (self : ObjId)
    (m : Magbead) (ts : list Toggle) (t : Toggle) :
  heap w !! self = Some m →
  ∃ w', toggles self (ts ++ [t]) false w = Some (tt, w') ∧
        engaged <$> heap w' !! self = Some (is_engage t).
Proof.
  intros H. rewrite toggles_app.
  destruct (toggles_total w self m ts false H) as (w1 & m1 & E1 & H1 & _).
  rewrite E1. destruct (toggle_eq w1 self m1 t false H1) as (w2 & E2 & H2).
  exists w2. split.
  - simpl. unfold bind. by rewrite E2.
  - by rewrite H2.
Qed.

Lemma engaged_follows_last_immediate_call_witness :
  heap world1 !! 0%nat = Some magbead1 ∧
  ∃ w', toggles 0%nat ([Engage; Engage; Disengage] ++ [Engage]) false world1
          = Some (tt, w') ∧
        engaged <$> heap w' !! 0%nat = Some true.
Proof.
  split; [reflexivity |].
  apply (engaged_follows_last_immediate_call world1 0%nat magbead1
           [Engage; Engage; Disengage] Engage).
  reflexivity.
Defined.



(** ** Text of the axis and of the calibration key *)

Lemma string_of_uint_colon_free d :
  colon_free (NilEmpty.string_of_uint d) = true.
Proof. induction d; simpl; assumption || reflexivity. Qed.

Lemma format_int_colon_free i : colon_free (format_int i) = true.
Proof.
  unfold format_int.
  destruct (Z.to_int i) as [d | d]; simpl; destruct d; simpl;
    try reflexivity; apply string_of_uint_colon_free.
Qed.

Lemma format_int_inj i j : format_int i = format_int j → i = j.
Proof.
  unfold format_int. intros E. apply DecimalZ.to_int_inj.
  assert (N : ∀ z, Z.to_int z ≠ Decimal.Pos Decimal.Nil ∧
                   Z.to_int z ≠ Decimal.Neg Decimal.Nil).
  { intros [| p | p]; simpl; split; try discriminate;
      intros [= Hp]; by apply (Unsigned.to_uint_nonnil p). }
  destruct (N i) as [Hi1 Hi2], (N j) as [Hj1 Hj2].
  pose proof (NilZero.isi _ Hi1 Hi2) as Ei.
  pose proof (NilZero.isi _ Hj1 Hj2) as Ej.
  rewrite E in Ei. rewrite Ei in Ej. by injection Ej.
Qed.

(** A text cut at its first [":"] has one prefix and one suffix. *)
Lemma colon_split a1 a2 n1 n2 :
  colon_free a1 = true → colon_free a2 = true →
  a1 +:+ ":" +:+ n1 = a2 +:+ ":" +:+ n2 → a1 = a2 ∧ n1 = n2.
Proof.
  revert a2. induction a1 as [| x a1 IH]; intros [| y a2] H1 H2 E; simpl in *.
  - by injection E.
  - injection E as Ex _. subst y. by rewrite Ascii.eqb_refl in H2.
  - injection E as Ex _. subst x. by rewrite Ascii.eqb_refl in H1.
  - injection E as Ex E'. subst y.
    apply andb_prop in H1 as [_ H1]. apply andb_prop in H2 as [_ H2].
    destruct (IH a2 H1 H2 E') as [-> ->]. done.
Qed.

(** ** Construction *)

(** What [__init__] leaves in the heap, and when it succeeds. *)
Lemma init_heap (self : ObjId) (nm : option string) (i : Z)
    (c : option Placeable) (w w' : World) :
  __init__ self nm i c w = Some (tt, w') →
  ∃ h d,
    mosfets w !! i = Some h ∧
    heap w' !! self =
      Some {| axis := "M" +:+ format_int i; motor := h;
              name := if py_not nm then __class____name__ else default "" nm;
              persisted_data := d;
              calibration_key :=
                ("M" +:+ format_int i) +:+ ":" +:+
                (if py_not nm then __class____name__ else default "" nm);
              container := c; engaged := false |}.
Proof.
  unfold __init__, bind, add_instrument, get_mosfet. simpl.
  destruct (mosfets w !! i) as [h |]; [| done]. simpl.
  unfold init_calibrations. simpl.
  match goal with |- context [calibrations w !! ?k] =>
    destruct (calibrations w !! k) end;
    unfold load_persisted_data, bind, getattr, setattr; simpl;
    repeat (rewrite lookup_insert_eq; simpl);
    intros [= <-]; simpl; rewrite lookup_insert_eq;
    eexists _, _; (split; [reflexivity |]); reflexivity.
Qed.

Lemma init_total (self : ObjId) (nm : option string) (i : Z)
    (c : option Placeable) (w : World) (h : MotorHandle) :
  mosfets w !! i = Some h → ∃ w', __init__ self nm i c w = Some (tt, w').
Proof.
  intros H. unfold __init__, bind, add_instrument, get_mosfet. simpl.
  rewrite H. simpl. unfold init_calibrations. simpl.
  match goal with |- context [calibrations w !! ?k] =>
    destruct (calibrations w !! k) end;
    unfold load_persisted_data, bind, getattr, setattr; simpl;
    repeat (rewrite lookup_insert_eq; simpl); eexists; reflexivity.
Qed.

Lemma init_result (self : ObjId) (nm : option string) (i : Z)
    (c : option Placeable) (w : World) (h : MotorHandle) :
  mosfets w !! i = Some h →
  ∃ w' m,
    __init__ self nm i c w = Some (tt, w') ∧
    heap w' !! self = Some m ∧
    axis m = "M" +:+ format_int i ∧
    motor m = h ∧
    name m = (if py_not nm then __class____name__ else default "" nm) ∧
    calibration_key m = axis m +:+ ":" +:+ name m ∧
    container m = c ∧
    engaged m = false.
Proof.
  intros H. destruct (init_total self nm i c w h H) as [w' E].
  destruct (init_heap self nm i c w w' E) as (h' & d & H' & Hm).
  rewrite H in H'. injection H' as <-.
  eexists w', _. split; [exact E |]. split; [exact Hm |].
  by repeat split.
Qed.

Example format_int_0 : format_int 0 = "0".
Proof. reflexivity. Qed.

Example format_int_neg : format_int (-12) = "-12".
Proof. reflexivity. Qed.

(** C6 as stated fails: [Magbead(name="", mosfet=0)] is given a name, the
    empty one, and the facade does not carry it. *)
Lemma init_empty_name_not_kept :
  ∃ self w' m,
    new_Magbead (Some "") 0 None world0 = Some (self, w') ∧
    heap w' !! self = Some m ∧
    ¬ (engaged m = false ∧
       axis m = "M" +:+ format_int 0 ∧
       name m = default __class____name__ (Some "")).
Proof.
  eexists _, _, _. split; [vm_compute; reflexivity |].
  split; [vm_compute; reflexivity |].
  simpl. intros (_ & _ & [=]).
Qed.

(** C6, amended: after construction at a slot the platform resolves, with
    any name argument, [engaged] is false, [axis] is ["M"] followed by the
    decimal text of the slot index, and [name] is the supplied name when it
    is a non-empty string, the class name ["Magbead"] when the name is
    omitted, [None] or empty. *)
Theorem init_postcondition (self : ObjId) (nm : option string) (i : Z)
    (c : option Placeable) (w : World) (h : MotorHandle) :
  mosfets w !! i = Some h →
  ∃ w' m,
    __init__ self nm i c w = Some (tt, w') ∧
    heap w' !! self = Some m ∧
    engaged m = false ∧
    axis m = "M" +:+ format_int i ∧
    name m = match nm with
             | Some (String a s) => String a s
             | Some EmptyString | None => "Magbead"
             end.
Proof.
  intros H.
  destruct (init_result self nm i c w h H)
    as (w' & m & E & Hm & Ha & _ & Hn & _ & _ & He).
  exists w', m. repeat split; try assumption.
  rewrite Hn. by destruct nm as [[| a s] |].
Qed.

Lemma init_postcondition_witness :
  mosfets world0 !! 0 = Some handle0 ∧
  ∃ w' m,
    __init__ 0%nat None 0 None world0 = Some (tt, w') ∧
    heap w' !! 0%nat = Some m ∧
    engaged m = false ∧ axis m = "M0" ∧ name m = "Magbead".
Proof.
  split; [reflexivity |].
  apply (init_postcondition 0%nat None 0 None world0 handle0).
  reflexivity.
Defined.

(** C10: constructing with the empty string as name, at a slot the platform
    resolves, names the facade ["Magbead"]; its calibration key is ["M"],
    the slot index, [":Magbead"], and not ["M"], the slot index, [":"]. *)
Theorem init_empty_name_is_class_name (self : ObjId) (i : Z)
    (c : option Placeable) (w : World) (h : MotorHandle) :
  mosfets w !! i = Some h →
  ∃ w' m,
    __init__ self (Some "") i c w = Some (tt, w') ∧
    heap w' !! self = Some m ∧
    name m = "Magbead" ∧
    calibration_key m = "M" +:+ format_int i +:+ ":Magbead" ∧
    calibration_key m ≠ "M" +:+ format_int i +:+ ":".
Proof.
  intros H.
  destruct (init_result self (Some "") i c w h H)
    as (w' & m & E & Hm & Ha & _ & Hn & Hk & _ & _).
  simpl in Hn. exists w', m. split; [exact E |]. split; [exact Hm |].
  split; [exact Hn |]. rewrite Hk, Ha, Hn. split; [reflexivity |].
  simpl. intros [= E'].
  destruct (colon_split (format_int i) (format_int i) "Magbead" ""
              (format_int_colon_free i) (format_int_colon_free i) E')
    as [_ [=]].
Qed.

Lemma init_empty_name_is_class_name_witness :
  mosfets world0 !! 1 = Some handle1 ∧
  ∃ w' m,
    __init__ 0%nat (Some "") 1 None world0 = Some (tt, w') ∧
    heap w' !! 0%nat = Some m ∧
    name m = "Magbead" ∧
    calibration_key m = "M1:Magbead" ∧
    calibration_key m ≠ "M1:".
Proof.
  split; [reflexivity |].
  apply (init_empty_name_is_class_name 0%nat 1 None world0 handle1).
  reflexivity.
Defined.

(** ** The calibration key *)





(** ** [delay] *)

(** C8: whatever [seconds] is, a negative number or no number at all, and
    for either value of [enqueue], a [delay] call on a facade returns that
    facade and changes no attribute of any facade.  Queued, it appends one
    descriptor and invokes no motor handle; the [_setup] of that descriptor
    leaves any world as it is, and its [_do] hands [seconds], as received,
    to the [wait] of the facade's motor handle.  Immediate, the queue is
    untouched and that one [wait] invocation, with [seconds] as received,
    is made at once. *)
Theorem delay_changes_no_facade_state (w : World) (self : ObjId) (m : Magbead)
    (seconds : pyval) :
  heap w !! self = Some m →
  (∃ w' c,
     delay self seconds true w = Some (self, w') ∧
     heap w' = heap w ∧
     motor_log w' = motor_log w ∧
     commands w' = commands w ++ [c] ∧
     (∀ w0, call (setup c) w0 = Some (tt, w0)) ∧
     call (do c) w' =
       Some (tt, set_motor_log
                   (motor_log w ++ [(motor m, motor_wait seconds)]) w')) ∧
  (∃ w',
     delay self seconds false w = Some (self, w') ∧
     heap w' = heap w ∧
     commands w' = commands w ∧
     motor_log w' = motor_log w ++ [(motor m, motor_wait seconds)]).
Proof.
  intros H. split.
  - rewrite (delay_eq w self m H). eexists _, _.
    split; [reflexivity |]. simpl. repeat split.
    unfold delay_command, call, bind, getattr. simpl. by rewrite H.
  - rewrite (delay_eq w self m H). eexists. by repeat split.
Qed.

Lemma delay_changes_no_facade_state_witness :
  heap world1 !! 0%nat = Some magbead1 ∧
  (∃ w' c,
     delay 0%nat (PyInt (-3)) true world1 = Some (0%nat, w') ∧
     heap w' = heap world1 ∧
     motor_log w' = motor_log world1 ∧
     commands w' = commands world1 ++ [c] ∧
     (∀ w0, call (setup c) w0 = Some (tt, w0)) ∧
     call (do c) w' =
       Some (tt, set_motor_log
                   (motor_log world1 ++ [(motor magbead1, motor_wait (PyInt (-3)))])
                   w')) ∧
  (∃ w',
     delay 0%nat (PyInt (-3)) false world1 = Some (0%nat, w') ∧
     heap w' = heap world1 ∧
     commands w' = commands world1 ∧
     motor_log w' =
       motor_log world1 ++ [(motor magbead1, motor_wait (PyInt (-3)))]).
Proof.
  split; [reflexivity |].
  apply (delay_changes_no_facade_state world1 0%nat magbead1 (PyInt (-3))).
  reflexivity.
Defined.

(** ** Descriptions *)

(** C9: on every facade, the descriptor [disengage] produces, the one it
    queues, has as description ["Engaging Magbead at mosfet #"] followed by
    the text of the facade's motor handle, the very description of the
    descriptor [engage] produces on the same facade; it begins with
    ["Engaging"] and not with ["Disengaging"]. *)
Theorem disengage_description_says_engaging (w : World) (self : ObjId)
    (m : Magbead) :
  heap w !! self = Some m →
  ∃ wd cd we ce,
    disengage self true w = Some (self, wd) ∧
    commands wd = commands w ++ [cd] ∧
    do cd = disengage__do self ∧
    engage self true w = Some (self, we) ∧
    commands we = commands w ++ [ce] ∧
    do ce = engage__do self ∧
    description cd = "Engaging Magbead at mosfet #" +:+ motor_str (motor m) ∧
    description cd = description ce ∧
    String.prefix "Engaging" (description cd) = true ∧
    String.prefix "Disengaging" (description cd) = false.
Proof.
  intros H. rewrite (disengage_eq w self m H), (engage_eq w self m H).
  eexists _, _, _, _. split; [reflexivity |]. split; [reflexivity |].
  split; [reflexivity |]. split; [reflexivity |]. split; [reflexivity |].
  by repeat split.
Qed.

Lemma disengage_description_says_engaging_witness :
  heap world1 !! 0%nat = Some magbead1 ∧
  ∃ wd cd we ce,
    disengage 0%nat true world1 = Some (0%nat, wd) ∧
    commands wd = commands world1 ++ [cd] ∧
    do cd = disengage__do 0%nat ∧
    engage 0%nat true world1 = Some (0%nat, we) ∧
    commands we = commands world1 ++ [ce] ∧
    do ce = engage__do 0%nat ∧
    description cd = "Engaging Magbead at mosfet #<mosfet 1>" ∧
    description cd = description ce ∧
    String.prefix "Engaging" (description cd) = true ∧
    String.prefix "Disengaging" (description cd) = false.
Proof.
  split; [reflexivity |].
  apply (disengage_description_says_engaging world1 0%nat magbead1).
  reflexivity.
Defined.

(** The descriptor [disengage] queues is [disengage_command] at the motor
    handle of the facade. *)
Lemma disengage_queues_its_command (w : World) (self : ObjId) (m : Magbead) :
  heap w !! self = Some m →
  ∃ w', disengage self true w = Some (self, w') ∧
        commands w' = commands w ++ [disengage_command self (motor m)].
Proof.
  intros H. rewrite (disengage_eq w self m H). by eexists.
Qed.

(** ** What the nested functions touch *)

Lemma same_identity_refl m : same_identity m m.
Proof. by repeat split. Qed.

Lemma same_identity_with_engaged b m : same_identity m (with_engaged b m).
Proof. by repeat split. Qed.

(** X1: a [_setup] function of this class, when it returns, has changed
    nothing but the [engaged] attribute of the one facade it closes over:
    the registry, the mosfets, the queue, the calibration store and the
    motor trace are as before, every other facade, existing or not, is
    exactly as it was, and the facade closed over is as it was up to
    [engaged].  The [_setup] of [delay], which closes over no facade,
    changes nothing at all. *)
Theorem setup_writes_only_engaged (f : Closure) (w w' : World) :
  is_setup f = true →
  call f w = Some (tt, w') →
  instruments w' = instruments w ∧ mosfets w' = mosfets w ∧
  commands w' = commands w ∧ calibrations w' = calibrations w ∧
  motor_log w' = motor_log w ∧
  (∀ o, closure_self f ≠ Some o → heap w' !! o = heap w !! o) ∧
  (∀ o, closure_self f = Some o →
        ∃ m b, heap w !! o = Some m ∧
               heap w' !! o = Some (with_engaged b m)) ∧
  (closure_self f = None → w' = w).
Proof.
  intros Hs E.
  assert (K : ∀ self b, setattr self (with_engaged b) w = Some (tt, w') →
    instruments w' = instruments w ∧ mosfets w' = mosfets w ∧
    commands w' = commands w ∧ calibrations w' = calibrations w ∧
    motor_log w' = motor_log w ∧
    (∀ o, Some self ≠ Some o → heap w' !! o = heap w !! o) ∧
    (∀ o, Some self = Some o →
          ∃ m b, heap w !! o = Some m ∧
                 heap w' !! o = Some (with_engaged b m)) ∧
    (Some self = None → w' = w)).
  { intros self b. unfold setattr.
    destruct (heap w !! self) as [m |] eqn:Hm; [| done].
    intros [= <-]. repeat split; simpl.
    - intros o Ho. apply lookup_insert_ne. congruence.
    - intros o [= <-]. exists m, b. split; [done |]. apply lookup_insert_eq.
    - done. }
  destruct f; try discriminate; simpl in E.
  - by apply (K self true).
  - by apply (K self false).
  - injection E as <-. repeat split. simpl. discriminate.
Qed.

Lemma setup_writes_only_engaged_witness :
  is_setup (disengage__setup 0%nat) = true ∧
  call (disengage__setup 0%nat) world1 =
    Some (tt, after_setup world1 0%nat magbead1 false) ∧
  commands (after_setup world1 0%nat magbead1 false) = commands world1 ∧
  motor_log (after_setup world1 0%nat magbead1 false) = motor_log world1 ∧
  heap (after_setup world1 0%nat magbead1 false) !! 5%nat =
    heap world1 !! 5%nat.
Proof.
  split; [reflexivity |]. split; [reflexivity |].
  destruct (setup_writes_only_engaged (disengage__setup 0%nat) world1
              (after_setup world1 0%nat magbead1 false) eq_refl eq_refl)
    as (_ & _ & Hq & _ & Hl & Ho & _).
  split; [assumption |]. split; [assumption |].
  apply Ho. discriminate.
Defined.

(** X2: a [_do] function of this class, when it returns, has changed no
    facade and nothing of the robot; it has made exactly one invocation,
    added at the end of the motor trace, on the motor handle of an existing
    facade. *)
Theorem do_only_invokes_the_motor (f : Closure) (w w' : World) :
  is_do f = true →
  call f w = Some (tt, w') →
  heap w' = heap w ∧ instruments w' = instruments w ∧
  mosfets w' = mosfets w ∧ commands w' = commands w ∧
  calibrations w' = calibrations w ∧
  ∃ o m c, heap w !! o = Some m ∧
           motor_log w' = motor_log w ++ [(motor m, c)].
Proof.
  intros Hd E.
  destruct f; try discriminate; simpl in E; unfold bind, getattr in E;
    destruct (heap w !! self) as [m |] eqn:Hm; try discriminate;
    simpl in E; injection E as <-; repeat split;
    exists self, m; eexists; (split; [exact Hm | reflexivity]).
Qed.

Lemma do_only_invokes_the_motor_witness :
  is_do (delay__do 0%nat (PyFloat "0.5")) = true ∧
  call (delay__do 0%nat (PyFloat "0.5")) world1 =
    Some (tt, set_motor_log [(handle1, motor_wait (PyFloat "0.5"))] world1) ∧
  heap (set_motor_log [(handle1, motor_wait (PyFloat "0.5"))] world1) =
    heap world1.
Proof.
  split; [reflexivity |]. split; [reflexivity |].
  destruct (do_only_invokes_the_motor (delay__do 0%nat (PyFloat "0.5")) world1
              (set_motor_log [(handle1, motor_wait (PyFloat "0.5"))] world1)
              eq_refl eq_refl) as (Hh & _).
  exact Hh.
Defined.

(** X3: of two [_setup] functions of [engage] or [disengage] run one after
    the other on the same facade, only the second shows: the outcome,
    failure included, is that of the second alone. *)
Theorem last_setup_wins (self : ObjId) (t1 t2 : Toggle) (w : World) :
  (call (setup_closure t1 self);; call (setup_closure t2 self)) w =
  call (setup_closure t2 self) w.
Proof.
  assert (K : ∀ b1 b2,
    (setattr self (with_engaged b1);; setattr self (with_engaged b2)) w =
    setattr self (with_engaged b2) w).
  { intros b1 b2. unfold bind, setattr.
    destruct (heap w !! self) as [m |] eqn:Hm; [| done]. simpl.
    rewrite lookup_insert_eq. unfold set_heap. simpl.
    by rewrite insert_insert_eq. }
  destruct t1, t2; apply K.
Qed.

(** X4: a [_setup] function and a [_do] function of this class commute,
    on the same facade or on two: run in either order they fail together or
    reach the same world.  A [_do] put off until later finds nothing
    changed by the [_setup] functions run in between. *)
Theorem setup_and_do_commute (s d : Closure) (w : World) :
  is_setup s = true →
  is_do d = true →
  (call s;; call d) w = (call d;; call s) w.
Proof.
  intros Hs Hd.
  assert (K : ∀ self b o c,
    (setattr self (with_engaged b);;
     (let* m := getattr o in invoke (motor m) c)) w =
    ((let* m := getattr o in invoke (motor m) c);;
     setattr self (with_engaged b)) w).
  { intros self b o c. unfold bind, setattr, getattr, invoke.
    destruct (heap w !! self) as [m |] eqn:Hm; simpl.
    - destruct (decide (self = o)) as [<- | Hne].
      + rewrite lookup_insert_eq, Hm. simpl. by rewrite Hm.
      + rewrite lookup_insert_ne by done.
        destruct (heap w !! o) as [mo |]; [| done]. simpl. by rewrite Hm.
    - destruct (heap w !! o) as [mo |]; [| done]. simpl. by rewrite Hm. }
  destruct s; try discriminate; destruct d; try discriminate; simpl;
    try apply K;
    unfold bind, ret, getattr; simpl;
    by destruct (heap w !! self).
Qed.

Lemma setup_and_do_commute_witness :
  is_setup (engage__setup 0%nat) = true ∧
  is_do (disengage__do 0%nat) = true ∧
  (call (engage__setup 0%nat);; call (disengage__do 0%nat)) world1 =
  (call (disengage__do 0%nat);; call (engage__setup 0%nat)) world1.
Proof.
  split; [reflexivity |]. split; [reflexivity |].
  apply (setup_and_do_commute (engage__setup 0%nat) (disengage__do 0%nat) world1);
    reflexivity.
Defined.

(** ** More on construction *)

(** What [__init__] leaves outside the new facade. *)
Lemma init_frame (self : ObjId) (nm : option string) (i : Z)
    (c : option Placeable) (w w' : World) :
  __init__ self nm i c w = Some (tt, w') →
  commands w' = commands w ∧ motor_log w' = motor_log w ∧
  mosfets w' = mosfets w ∧
  instruments w' = <["M" +:+ format_int i := self]> (instruments w) ∧
  ∀ o, o ≠ self → heap w' !! o = heap w !! o.
Proof.
  unfold __init__, bind, add_instrument, get_mosfet. simpl.
  destruct (mosfets w !! i) as [h |]; [| done]. simpl.
  unfold init_calibrations. simpl.
  match goal with |- context [calibrations w !! ?k] =>
    destruct (calibrations w !! k) end;
    unfold load_persisted_data, bind, getattr, setattr; simpl;
    repeat (rewrite lookup_insert_eq; simpl);
    intros [= <-]; simpl; repeat split;
    intros o Ho; by rewrite !lookup_insert_ne.
Qed.

(** X5: two facades constructed at slots the platform resolves have the
    same axis exactly when their slot indexes are equal, whatever their
    names and containers, and an axis holds no [":"]: in a calibration key
    the axis is what comes before the first colon. *)
Theorem axis_determines_slot (s1 s2 : ObjId) (n1 n2 : option string)
    (i1 i2 : Z) (c1 c2 : option Placeable) (w1 w2 : World)
    (h1 h2 : MotorHandle) :
  mosfets w1 !! i1 = Some h1 →
  mosfets w2 !! i2 = Some h2 →
  ∃ w1' m1 w2' m2,
    __init__ s1 n1 i1 c1 w1 = Some (tt, w1') ∧ heap w1' !! s1 = Some m1 ∧
    __init__ s2 n2 i2 c2 w2 = Some (tt, w2') ∧ heap w2' !! s2 = Some m2 ∧
    (axis m1 = axis m2 ↔ i1 = i2) ∧
    colon_free (axis m1) = true.
Proof.
  intros H1 H2.
  destruct (init_result s1 n1 i1 c1 w1 h1 H1)
    as (w1' & m1 & E1 & Hm1 & Ha1 & _).
  destruct (init_result s2 n2 i2 c2 w2 h2 H2)
    as (w2' & m2 & E2 & Hm2 & Ha2 & _).
  exists w1', m1, w2', m2. repeat split; try assumption.
  - rewrite Ha1, Ha2. simpl. intros [= E]. by apply format_int_inj.
  - intros <-. by rewrite Ha1, Ha2.
  - rewrite Ha1. simpl. apply format_int_colon_free.
Qed.

Lemma axis_determines_slot_witness :
  mosfets world0 !! 0 = Some handle0 ∧
  mosfets world0 !! 1 = Some handle1 ∧
  ∃ w1' m1 w2' m2,
    __init__ 0%nat None 0 None world0 = Some (tt, w1') ∧
    heap w1' !! 0%nat = Some m1 ∧
    __init__ 1%nat (Some "b") 1 None world0 = Some (tt, w2') ∧
    heap w2' !! 1%nat = Some m2 ∧
    (axis m1 = axis m2 ↔ 0 = 1) ∧
    colon_free (axis m1) = true.
Proof.
  split; [reflexivity |]. split; [reflexivity |].
  apply (axis_determines_slot 0%nat 1%nat None (Some "b") 0 1 None None
           world0 world0 handle0 handle1); reflexivity.
Defined.

(** X6: whatever name argument it is given, a facade constructed at a slot
    the platform resolves has a non-empty name, so its calibration key never
    stops at the colon after the axis; the facade carries the container it
    was given and the motor handle the platform resolved for its slot. *)
Theorem init_name_never_empty (self : ObjId) (nm : option string) (i : Z)
    (c : option Placeable) (w : World) (h : MotorHandle) :
  mosfets w !! i = Some h →
  ∃ w' m,
    __init__ self nm i c w = Some (tt, w') ∧
    heap w' !! self = Some m ∧
    name m ≠ "" ∧
    calibration_key m ≠ axis m +:+ ":" ∧
    container m = c ∧
    motor m = h.
Proof.
  intros H.
  destruct (init_result self nm i c w h H)
    as (w' & m & E & Hm & Ha & Hh & Hn & Hk & Hc & _).
  assert (Hne : name m ≠ "").
  { rewrite Hn. by destruct nm as [[| a s] |]. }
  exists w', m. repeat split; try assumption.
  rewrite Hk, Ha. simpl. intros [= E'].
  destruct (colon_split (format_int i) (format_int i) (name m) ""
              (format_int_colon_free i) (format_int_colon_free i) E')
    as [_ En].
  by apply Hne.
Qed.

Lemma init_name_never_empty_witness :
  mosfets world0 !! 1 = Some handle1 ∧
  ∃ w' m,
    __init__ 0%nat (Some "") 1 (Some 7%nat) world0 = Some (tt, w') ∧
    heap w' !! 0%nat = Some m ∧
    name m ≠ "" ∧
    calibration_key m ≠ axis m +:+ ":" ∧
    container m = Some 7%nat ∧
    motor m = handle1.
Proof.
  split; [reflexivity |].
  apply (init_name_never_empty 0%nat (Some "") 1 (Some 7%nat) world0 handle1).
  reflexivity.
Defined.

(** X7: constructing a facade queues no command and invokes no motor
    handle, leaves every other facade as it was, and registers the new
    facade with the robot under its own axis; when the platform does not
    resolve the slot the construction fails. *)
Theorem init_touches_no_other_facade (self : ObjId) (nm : option string)
    (i : Z) (c : option Placeable) (w : World) :
  match mosfets w !! i with
  | Some h =>
      ∃ w' m,
        __init__ self nm i c w = Some (tt, w') ∧
        heap w' !! self = Some m ∧
        commands w' = commands w ∧
        motor_log w' = motor_log w ∧
        instruments w' !! axis m = Some self ∧
        ∀ o, o ≠ self → heap w' !! o = heap w !! o
  | None => __init__ self nm i c w = None
  end.
Proof.
  destruct (mosfets w !! i) as [h |] eqn:H.
  - destruct (init_result self nm i c w h H)
      as (w' & m & E & Hm & Ha & _).
    destruct (init_frame self nm i c w w' E) as (Hq & Hl & _ & Hi & Ho).
    exists w', m. repeat split; try assumption.
    rewrite Hi, Ha. apply lookup_insert_eq.
  - unfold __init__, bind, add_instrument, get_mosfet. simpl. by rewrite H.
Qed.

(** ** Queueing a chain of calls, then running the queue *)

Lemma with_engaged_id m : with_engaged (engaged m) m = m.
Proof. by destruct m. Qed.

Lemma after_setup_id w self m :
  heap w !! self = Some m → after_setup w self m (engaged m) = w.
Proof.
  intros H. unfold after_setup, set_heap.
  rewrite with_engaged_id, (insert_id _ _ _ H). by destruct w.
Qed.

Lemma after_setup_twice w self m b1 b2 :
  after_setup (after_setup w self m b1) self (with_engaged b1 m) b2 =
  after_setup w self m b2.
Proof.
  unfold after_setup, set_heap. simpl. by rewrite insert_insert_eq.
Qed.

Lemma perform_eq w self m a enqueue :
  heap w !! self = Some m →
  perform self a enqueue w =
  Some (self,
        if enqueue
        then set_commands (commands w ++ [action_command self (motor m) a])
               (after_setup w self m (engaged_after a (engaged m)))
        else set_motor_log (motor_log w ++ [(motor m, motor_call a)])
               (after_setup w self m (engaged_after a (engaged m)))).
Proof.
  intros H. destruct a; simpl.
  - apply (engage_eq w self m H).
  - apply (disengage_eq w self m H).
  - rewrite (delay_eq w self m H), (after_setup_id w self m H). done.
Qed.

Lemma engaged_after_all_idem l b :
  fold_left (λ b a, engaged_after a b) l
    (fold_left (λ b a, engaged_after a b) l b) =
  fold_left (λ b a, engaged_after a b) l b.
Proof.
  assert (K : ∀ l b b',
    fold_left (λ b a, engaged_after a b) l b' =
      fold_left (λ b a, engaged_after a b) l b ∨
    (fold_left (λ b a, engaged_after a b) l b' = b' ∧
     fold_left (λ b a, engaged_after a b) l b = b)).
  { clear. induction l as [| a l IH]; intros b b'; simpl; [by right |].
    destruct a; simpl; try (left; reflexivity). apply IH. }
  destruct (K l b (fold_left (λ b a, engaged_after a b) l b)) as [E | [E _]];
    exact E.
Qed.

Lemma perform_all_eq w self m l enqueue :
  heap w !! self = Some m →
  perform_all self l enqueue w =
  Some (tt,
        if enqueue
        then set_commands
               (commands w ++ map (action_command self (motor m)) l)
               (after_setup w self m
                  (fold_left (λ b a, engaged_after a b) l (engaged m)))
        else set_motor_log
               (motor_log w ++ map (λ a, (motor m, motor_call a)) l)
               (after_setup w self m
                  (fold_left (λ b a, engaged_after a b) l (engaged m)))).
Proof.
  revert w m. induction l as [| a l IH]; intros w m H; simpl.
  - rewrite !app_nil_r, (after_setup_id w self m H).
    unfold ret. by destruct enqueue, w.
  - unfold bind. rewrite (perform_eq w self m a enqueue H).
    set (b1 := engaged_after a (engaged m)).
    assert (H1 : ∀ w1, heap w1 = heap (after_setup w self m b1) →
                       heap w1 !! self = Some (with_engaged b1 m)).
    { intros w1 ->. apply after_setup_lookup. }
    destruct enqueue.
    + rewrite (IH _ (with_engaged b1 m)) by (apply H1; reflexivity).
      simpl. unfold after_setup, set_commands, set_heap. simpl.
      by rewrite insert_insert_eq, <- app_assoc.
    + rewrite (IH _ (with_engaged b1 m)) by (apply H1; reflexivity).
      simpl. unfold after_setup, set_motor_log, set_heap. simpl.
      by rewrite insert_insert_eq, <- app_assoc.
Qed.

Lemma replay_eq w self m l :
  heap w !! self = Some m →
  replay (map (action_command self (motor m)) l) w =
  perform_all self l false w.
Proof.
  revert w m. induction l as [| a l IH]; intros w m H; simpl; [done |].
  unfold bind at 1 2 3.
  rewrite (perform_eq w self m a false H).
  set (b1 := engaged_after a (engaged m)).
  assert (E : (call (setup (action_command self (motor m) a));;
               call (do (action_command self (motor m) a))) w =
              Some (tt, set_motor_log (motor_log w ++ [(motor m, motor_call a)])
                          (after_setup w self m b1))).
  { destruct a; simpl; unfold bind.
    - rewrite (setattr_eq w self m H). unfold getattr.
      fold (after_setup w self m true). by rewrite after_setup_lookup.
    - rewrite (setattr_eq w self m H). unfold getattr.
      fold (after_setup w self m false). by rewrite after_setup_lookup.
    - unfold ret. rewrite (getattr_eq w self m H). simpl.
      subst b1. simpl. by rewrite (after_setup_id w self m H). }
  unfold bind in E.
  destruct (call (setup (action_command self (motor m) a)) w)
    as [[[] w1] |]; [| done].
  rewrite E.
  apply (IH _ (with_engaged b1 m)). simpl. apply lookup_insert_eq.
Qed.

(** X8: with nothing queued before, a chain of [engage], [disengage] and
    [delay] calls on a constructed facade that is queued and then run
    reaches the very world the same chain reaches when every call is made
    with [enqueue] false: same facade state, empty queue, and the motor
    handle of the facade has received one invocation per call, in the order
    of the calls. *)
Theorem queue_then_run_is_immediate (w : World) (self : ObjId) (m : Magbead)
    (l : list Action) :
  heap w !! self = Some m →
  commands w = [] →
  ∃ w',
    (perform_all self l true;; run) w = Some (tt, w') ∧
    perform_all self l false w = Some (tt, w') ∧
    motor_log w' = motor_log w ++ map (λ a, (motor m, motor_call a)) l ∧
    commands w' = [].
Proof.
  intros H Hq. unfold bind.
  rewrite (perform_all_eq w self m l true H). unfold run. simpl.
  rewrite Hq. simpl.
  set (b := fold_left (λ b a, engaged_after a b) l (engaged m)).
  set (w2 := set_commands [] (set_commands _ _)).
  assert (H2 : heap w2 !! self = Some (with_engaged b m)).
  { subst w2. simpl. apply lookup_insert_eq. }
  change (map (action_command self (motor m)) l)
    with (map (action_command self (motor (with_engaged b m))) l).
  rewrite (replay_eq w2 self _ l H2).
  rewrite (perform_all_eq w2 self _ l false H2).
  rewrite (perform_all_eq w self m l false H).
  eexists. split; [reflexivity |]. split; [| by split].
  subst w2. simpl. fold b. subst b. rewrite engaged_after_all_idem.
  unfold after_setup, set_motor_log, set_commands, set_heap. simpl.
  by rewrite insert_insert_eq, Hq.
Qed.

Lemma queue_then_run_is_immediate_witness :
  heap world1 !! 0%nat = Some magbead1 ∧ commands world1 = [] ∧
  ∃ w',
    (perform_all 0%nat [call_engage; call_delay (PyInt 5); call_disengage; call_delay PyNone]
       true;; run) world1 = Some (tt, w') ∧
    perform_all 0%nat [call_engage; call_delay (PyInt 5); call_disengage; call_delay PyNone]
      false world1 = Some (tt, w') ∧
    motor_log w' =
      [(handle1, motor_engage); (handle1, motor_wait (PyInt 5));
       (handle1, motor_disengage); (handle1, motor_wait PyNone)] ∧
    commands w' = [].
Proof.
  split; [reflexivity |]. split; [reflexivity |].
  apply (queue_then_run_is_immediate world1 0%nat magbead1
           [call_engage; call_delay (PyInt 5); call_disengage; call_delay PyNone]);
    reflexivity.
Defined.

(** X9: on a constructed facade, a chain of calls leaves the heap of
    facades the same whether it is made with [enqueue] true or false: the
    flag decides when the motor is driven, not what the facade reports.
    Queued, the chain adds one descriptor per call and invokes no motor
    handle; immediate, it adds one invocation per call and queues
    nothing. *)
Theorem enqueue_does_not_change_facade_state (w : World) (self : ObjId)
    (m : Magbead) (l : list Action) :
  heap w !! self = Some m →
  ∃ wq wi,
    perform_all self l true w = Some (tt, wq) ∧
    perform_all self l false w = Some (tt, wi) ∧
    heap wq = heap wi ∧
    motor_log wq = motor_log w ∧
    length (commands wq) = (length (commands w) + length l)%nat ∧
    commands wi = commands w ∧
    length (motor_log wi) = (length (motor_log w) + length l)%nat.
Proof.
  intros H.
  rewrite (perform_all_eq w self m l true H),
          (perform_all_eq w self m l false H).
  eexists _, _. split; [reflexivity |]. split; [reflexivity |].
  simpl. repeat split; by rewrite length_app, length_map.
Qed.

Lemma enqueue_does_not_change_facade_state_witness :
  heap world1 !! 0%nat = Some magbead1 ∧
  ∃ wq wi,
    perform_all 0%nat [call_delay (PyInt 2); call_engage] true world1 = Some (tt, wq) ∧
    perform_all 0%nat [call_delay (PyInt 2); call_engage] false world1 = Some (tt, wi) ∧
    heap wq = heap wi ∧
    motor_log wq = [] ∧ length (commands wq) = 2%nat ∧
    commands wi = [] ∧ length (motor_log wi) = 2%nat.
Proof.
  split; [reflexivity |].
  apply (enqueue_does_not_change_facade_state world1 0%nat magbead1
           [call_delay (PyInt 2); call_engage]).
  reflexivity.
Defined.

(** ** The description of [delay] *)

Lemma append_length s t :
  String.length (s +:+ t) = (String.length s + String.length t)%nat.
Proof. induction s as [| a s IH]; simpl; [done | by rewrite IH]. Qed.

Lemma append_cancel_r s1 s2 t : s1 +:+ t = s2 +:+ t → s1 = s2.
Proof.
  revert s2. induction s1 as [| a s1 IH]; intros [| b s2] E; simpl in E.
  - done.
  - apply (f_equal String.length) in E.
    rewrite !append_length in E. cbn in E. lia.
  - apply (f_equal String.length) in E.
    rewrite !append_length in E. cbn in E. lia.
  - injection E as -> E. by rewrite (IH s2 E).
Qed.

(** X10: whatever [seconds] is, the descriptor [delay] queues has as
    description ["Delaying Magbead for "], the text of [seconds],
    [" seconds"].  Two [delay] calls, on any facades and in any worlds,
    queue the same description exactly when their [seconds] have the same
    text: two integer durations only when they are equal, and an integer
    and the string of its digits always. *)
Theorem delay_description_shows_seconds (w w' : World) (self self' : ObjId)
    (s s' : pyval) (a b : Z) :
  ∃ c c' ca cb cs,
    delay self s true w = Some (self, set_commands (commands w ++ [c]) w) ∧
    delay self' s' true w' =
      Some (self', set_commands (commands w' ++ [c']) w') ∧
    delay self (PyInt a) true w =
      Some (self, set_commands (commands w ++ [ca]) w) ∧
    delay self' (PyInt b) true w' =
      Some (self', set_commands (commands w' ++ [cb]) w') ∧
    delay self' (PyStr (format_int a)) true w' =
      Some (self', set_commands (commands w' ++ [cs]) w') ∧
    do c = delay__do self s ∧
    description c = "Delaying Magbead for " +:+ format s +:+ " seconds" ∧
    (description c = description c' ↔ format s = format s') ∧
    (description ca = description cb ↔ a = b) ∧
    description ca = description cs.
Proof.
  assert (K : ∀ t t' : string,
    "Delaying Magbead for " +:+ t +:+ " seconds" =
    "Delaying Magbead for " +:+ t' +:+ " seconds" ↔ t = t').
  { intros t t'. split; [| by intros <-]. simpl. intros E.
    apply (append_cancel_r _ _ " seconds"). by repeat injection E as E. }
  rewrite !delay_enqueue_eq. eexists _, _, _, _, _.
  split; [reflexivity |]. split; [reflexivity |]. split; [reflexivity |].
  split; [reflexivity |]. split; [reflexivity |].
  split; [reflexivity |]. split; [reflexivity |].
  split; [apply K |]. split; [| reflexivity].
  unfold delay_command, description. rewrite K. simpl.
  split; [apply format_int_inj | by intros <-].
Qed.
